(** * Pools usage summary report: aggregation and renderers

    Shallow embedding of [uds/reports/stats/pools_usage_summary.py]
    ([PoolsUsageSummary.processed_data], [PoolsUsageSummary.generate] and
    [PoolsUsageSummaryCSV.generate]) together with the properties of the
    aggregation contract.

    Python integers are unbounded and are modelled by [Z]; [//] on integers
    is floor division and raises on a zero divisor; a [dict] keeps its keys
    in insertion order and is modelled as an association list; a [set] of
    strings is a [gset string]. *)

From Stdlib Require Import ZArith List Permutation DecimalString.
From stdpp Require Import gmap strings list.

Local Open Scope Z_scope.

(** ** Python exceptions and the result monad *)

Inductive py_exception := ZeroDivisionError | OverflowError.

Inductive py_result (A : Type) :=
| Return (a : A)
| Raise (e : py_exception).
Arguments Return {A} a.
Arguments Raise {A} e.

#[global] Instance py_result_ret : MRet py_result := fun A a => Return a.
#[global] Instance py_result_bind : MBind py_result := fun A B f m =>
  match m with
  | Return a => f a
  | Raise e => Raise e
  end.
#[global] Instance py_result_fmap : FMap py_result := fun A B f m =>
  match m with
  | Return a => Return (f a)
  | Raise e => Raise e
  end.

(** [r] is an uncaught [ZeroDivisionError]. *)
Definition is_zero_division {A} (r : py_result A) : bool :=
  match r with
  | Raise ZeroDivisionError => true
  | _ => false
  end.

(** [a // b] on Python integers. *)
Definition floordiv (a b : Z) : py_result Z :=
  if b =? 0 then Raise ZeroDivisionError else Return (a / b).

(** [str(n)] on a Python integer. *)
Definition str_int (n : Z) : string := NilZero.string_of_int (Z.to_int n).

(** ** Insertion-ordered dictionaries with string keys *)

Module Dict.
Section WithValues.
Context {V : Type}.

Definition t := list (string * V).

(** [k in d] *)
Fixpoint contains (k : string) (d : t) : bool :=
  match d with
  | [] => false
  | (k', _) :: d' => if String.eqb k k' then true else contains k d'
  end.

(** [d.get(k)] *)
Fixpoint get (k : string) (d : t) : option V :=
  match d with
  | [] => None
  | (k', x) :: d' => if String.eqb k k' then Some x else get k d'
  end.

(** [d[k] = x]: a present key keeps its position, a new key goes last. *)
Fixpoint setitem (k : string) (x : V) (d : t) : t :=
  match d with
  | [] => [(k, x)]
  | (k', x') :: d' =>
      if String.eqb k k' then (k', x) :: d' else (k', x') :: setitem k x d'
  end.

(** In-place update of the value stored under [k] (as [d[k][..] += ..]
    does through the reference [d[k]]). *)
Fixpoint alter (f : V -> V) (k : string) (d : t) : t :=
  match d with
  | [] => []
  | (k', x) :: d' =>
      if String.eqb k k' then (k', f x) :: d' else (k', x) :: alter f k d'
  end.

Definition keys (d : t) : list string := map fst d.
Definition values (d : t) : list V := map snd d.
End WithValues.
Arguments t : clear implicits.
End Dict.

(** ** Data model *)

(** One row of [UsageByPool.get_data()]: keys ['pool'], ['pool_name'],
    ['name'] and ['time']. *)
Record usage_record := UsageRecord {
  v_pool : string;
  v_pool_name : string;
  v_name : string;
  v_time : Z
}.

(** One value of the [pools] dictionary: keys ['name'], ['time'], ['count']
    and ['users'].  ['users'] holds a set during the loop and its length
    afterwards, hence the parameter. *)
Record pool_entry (U : Type) := PoolEntry {
  p_name : string;
  p_time : Z;
  p_count : Z;
  p_users : U
}.
Arguments PoolEntry {U} _ _ _ _.
Arguments p_name {U} _.
Arguments p_time {U} _.
Arguments p_count {U} _.
Arguments p_users {U} _.

(** The local variables of [processed_data]. *)
Record agg_state := AggState {
  pools : Dict.t (pool_entry (gset string));
  total_time : Z;
  total_count : Z;
  unique_users : gset string
}.

Definition add_time (t : Z) {U} (p : pool_entry U) : pool_entry U :=
  PoolEntry (p_name p) (p_time p + t) (p_count p) (p_users p).
Definition incr_count {U} (p : pool_entry U) : pool_entry U :=
  PoolEntry (p_name p) (p_time p) (p_count p + 1) (p_users p).
Definition add_user (u : string) (p : pool_entry (gset string)) :
    pool_entry (gset string) :=
  PoolEntry (p_name p) (p_time p) (p_count p) (p_users p ∪ {[u]}).

(** ** [PoolsUsageSummary.processed_data] *)

Definition initial_state : agg_state := AggState [] 0 0 ∅.

(** Body of [for v in orig]. *)
Definition loop_body (st : agg_state) (v : usage_record) : agg_state :=
  let uuid := v_pool v in
  let pools0 :=
    if negb (Dict.contains uuid (pools st))
    then Dict.setitem uuid (PoolEntry (v_pool_name v) 0 0 ∅) (pools st)
    else pools st in
  let pools1 := Dict.alter (add_time (v_time v)) uuid pools0 in
  let pools2 := Dict.alter incr_count uuid pools1 in
  let pools3 := Dict.alter (add_user (v_name v)) uuid pools2 in
  AggState pools3
           (total_time st + v_time v)
           (total_count st + 1)
           (unique_users st ∪ {[v_name v]}).

Definition aggregate (orig : list usage_record) : agg_state :=
  fold_left loop_body orig initial_state.

(** [pn['users'] = len(pn['users'])] *)
Definition collapse_users (p : pool_entry (gset string)) : pool_entry Z :=
  PoolEntry (p_name p) (p_time p) (p_count p) (Z.of_nat (size (p_users p))).

(** [for _, pn in pools.items(): pn['users'] = len(pn['users'])] *)
Definition finalize (d : Dict.t (pool_entry (gset string))) :
    Dict.t (pool_entry Z) :=
  map (fun kv => (fst kv, collapse_users (snd kv))) d.

(** The [pools] dictionary when [processed_data] returns. *)
Definition final_pools (orig : list usage_record) : Dict.t (pool_entry Z) :=
  finalize (pools (aggregate orig)).

(** [total_count or 1] *)
Definition or_one (n : Z) : Z := if n =? 0 then 1 else n.

Definition processed_data (orig : list usage_record) :
    list (pool_entry Z) * Z * Z * Z :=
  let st := aggregate orig in
  (Dict.values (final_pools orig),
   total_time st,
   or_one (total_count st),
   Z.of_nat (size (unique_users st))).

(** ** [datetime.timedelta] as the renderers use it

    Only [timedelta(seconds=n)] with an integer [n] and [str] of the result
    occur.  The constructor normalises into days and seconds of the day and
    rejects more than 999999999 days either way. *)

Record timedelta := TimeDelta {
  td_days : Z;
  td_seconds : Z;
  td_microseconds : Z
}.

Definition MAX_DELTA_DAYS : Z := 999999999.

Definition timedelta_of_seconds (n : Z) : py_result timedelta :=
  let d := n / 86400 in
  let s := n mod 86400 in
  if Z.abs d >? MAX_DELTA_DAYS then Raise OverflowError
  else Return (TimeDelta d s 0).

(** Whole seconds held by a [timedelta]. *)
Definition whole_seconds (td : timedelta) : Z :=
  td_days td * 86400 + td_seconds td.

(** ["%02d" % n] for [0 <= n < 100]. *)
Definition fmt_02d (n : Z) : string :=
  if n <? 10 then "0" +:+ str_int n else str_int n.

(** ["%06d" % n] for [0 <= n < 1000000]. *)
Definition fmt_06d (n : Z) : string :=
  let s := str_int n in
  String.concat EmptyString (repeat "0"%string (6 - String.length s)%nat)
    +:+ s.

(** [timedelta.__str__] *)
Definition timedelta_str (td : timedelta) : string :=
  let mm := td_seconds td / 60 in
  let ss := td_seconds td mod 60 in
  let hh := mm / 60 in
  let mm := mm mod 60 in
  let s := str_int hh +:+ ":" +:+ fmt_02d mm +:+ ":" +:+ fmt_02d ss in
  let s :=
    if td_days td =? 0 then s
    else str_int (td_days td) +:+ " day"
         +:+ (if Z.abs (td_days td) =? 1 then EmptyString else "s") +:+ ", " +:+ s in
  if td_microseconds td =? 0 then s
  else s +:+ "." +:+ fmt_06d (td_microseconds td).

(** [str(datetime.timedelta(seconds=n))] *)
Definition duration_str (n : Z) : py_result string :=
  td ← timedelta_of_seconds n; mret (timedelta_str td).

(** ** The renderers *)

(** One entry of the ['data'] generator of the PDF payload. *)
Record pdf_row := PdfRow {
  r_name : string;
  r_time : string;
  r_count : Z;
  r_users : Z;
  r_mean : string
}.

(** The [dct] argument handed to [template_as_pdf]. *)
Record pdf_dct := PdfDct {
  d_data : list pdf_row;
  d_time : string;
  d_count : Z;
  d_users : Z;
  d_mean : string;
  d_start : string;
  d_end : string
}.

(** The call [template_as_pdf(template, dct=.., header=.., water=..)]. *)
Record pdf_call := PdfCall {
  c_template : string;
  c_dct : pdf_dct;
  c_header : string;
  c_water : string
}.

(** A CSV cell: [csv.writer] receives strings and integers. *)
Inductive cell := CStr (s : string) | CInt (n : Z).

(** The seconds passed to [timedelta] for the ['mean'] of a pool:
    [p['time'] // int(p['count'])]. *)
Definition pdf_mean_seconds (p : pool_entry Z) : py_result Z :=
  floordiv (p_time p) (p_count p).

(** One element of the generator expression over [pools]. *)
Definition pdf_data_row (p : pool_entry Z) : py_result pdf_row :=
  t ← duration_str (p_time p);
  m ← pdf_mean_seconds p;
  ms ← duration_str m;
  mret (PdfRow (p_name p) t (p_count p) (p_users p) ms).

(** The list handed to [writer.writerow] for one pool. *)
Definition csv_data_row (v : pool_entry Z) : py_result (list cell) :=
  m ← floordiv (p_time v) (p_count v);
  mret [CStr (p_name v); CInt (p_time v); CInt (p_count v);
        CInt (p_users v); CInt m].

Section Renderers.
(** External collaborators: the translation lookup and the report's date
    fields as strings.  The rows of [UsageByPool.get_data()] are the
    argument [orig]. *)
Variable gettext : string -> string.
Variables start_date end_date : string.

(** [PoolsUsageSummary.generate], up to the arguments of
    [template_as_pdf].  The ['data'] generator is consumed by the
    template, after the other entries of [dct] have been evaluated. *)
Definition generate (orig : list usage_record) : py_result pdf_call :=
  let '(pools, total_time, total_count, unique_users) :=
    processed_data orig in
  let start := start_date in
  let end_ := end_date in
  t ← duration_str total_time;
  m ← floordiv total_time total_count;
  ms ← duration_str m;
  data ← mapM pdf_data_row pools;
  mret (PdfCall "uds/reports/stats/pools-usage-summary.html"
          (PdfDct data t total_count unique_users ms start end_)
          (gettext "Summary of Pools usage" +:+ " " +:+ start +:+ " "
             +:+ gettext "to" +:+ " " +:+ end_)
          (gettext "UDS Report Summary of pools usage")).

Definition csv_header : list cell :=
  [CStr (gettext "Pool"); CStr (gettext "Total Time (seconds)");
   CStr (gettext "Total Accesses"); CStr (gettext "Unique users");
   CStr (gettext "Mean time (seconds)")].

(** [for v in report_data: writer.writerow([...])], threading the rows
    written so far. *)
Fixpoint write_data_rows (written : list (list cell))
    (report_data : list (pool_entry Z)) : py_result (list (list cell)) :=
  match report_data with
  | [] => mret written
  | v :: rest =>
      row ← csv_data_row v;
      write_data_rows (written ++ [row]) rest
  end.

(** [PoolsUsageSummaryCSV.generate]: the rows passed to
    [writer.writerow], in the order of the calls.  The text that
    [csv.writer] produces from them and its encoding are external. *)
Definition generate_csv (orig : list usage_record) :
    py_result (list (list cell)) :=
  let '(report_data, total_time, total_count, total_users) :=
    processed_data orig in
  let written := [csv_header] in
  written ← write_data_rows written report_data;
  m ← floordiv total_time total_count;
  mret (written ++ [[CStr (gettext "Total"); CInt total_time;
                     CInt total_count; CInt total_users; CInt m]]).
End Renderers.

(** ** The example of the specification *)

Definition example_records : list usage_record :=
  [UsageRecord "A" "Pool A" "u1" 100;
   UsageRecord "A" "Pool A" "u2" 50;
   UsageRecord "B" "Pool B" "u1" 30].


(** ** Reference notions used to state the properties *)

Definition sum_Z (l : list Z) : Z := foldr Z.add 0 l.

(** The records of [orig] that bear pool id [k], in input order. *)
Definition records_of (k : string) (orig : list usage_record) :
    list usage_record :=
  filter (λ v, v_pool v = k) orig.

(** Keys in order of first occurrence. *)
Fixpoint first_seen (l : list string) : list string :=
  match l with
  | [] => []
  | k :: l' => k :: filter (λ k', k' ≠ k) (first_seen l')
  end.

(** The figures of a pool entry, leaving its name out. *)
Definition figures {U} (p : pool_entry U) : Z * Z * U :=
  (p_time p, p_count p, p_users p).

(** What the loop has stored under [k] once [orig] is consumed, read off
    the records directly. *)
Definition entry_of (k : string) (orig : list usage_record) :
    option (pool_entry (gset string)) :=
  match records_of k orig with
  | [] => None
  | v :: rest =>
      Some (PoolEntry (v_pool_name v)
              (sum_Z (map v_time (v :: rest)))
              (Z.of_nat (length (v :: rest)))
              (list_to_set (map v_name (v :: rest))))
  end.

(** The figures of the aggregate built from the records [rs] of one pool. *)
Definition figures_of_records (rs : list usage_record) : option (Z * Z * Z) :=
  match rs with
  | [] => None
  | _ => Some (sum_Z (map v_time rs), Z.of_nat (length rs),
               Z.of_nat (size (list_to_set (C:=gset string) (map v_name rs))))
  end.

(** The three updates of one iteration, applied to the pool's entry. *)
Definition touch (v : usage_record) (p : pool_entry (gset string)) :
    pool_entry (gset string) :=
  add_user (v_name v) (incr_count (add_time (v_time v) p)).

(** Sum of [g] over the values of a dictionary. *)
Definition sum_values {V} (g : V -> Z) (d : Dict.t V) : Z :=
  sum_Z (map g (Dict.values d)).

(** The row written for a pool whose [count] is not zero. *)
Definition csv_row_of (v : pool_entry Z) : list cell :=
  [CStr (p_name v); CInt (p_time v); CInt (p_count v); CInt (p_users v);
   CInt (p_time v / p_count v)].

(** ** The loop with its dictionary lookups checked

    [pools[uuid]] on an absent key raises [KeyError]; [None] stands for
    it here. *)

(** [d[k][..] = f(d[k][..])]: look [k] up, then update in place. *)
Definition update_item {V} (f : V -> V) (k : string) (d : Dict.t V) :
    option (Dict.t V) :=
  match Dict.get k d with
  | Some _ => Some (Dict.alter f k d)
  | None => None
  end.

Definition loop_body_checked (st : agg_state) (v : usage_record) :
    option agg_state :=
  let uuid := v_pool v in
  let pools0 :=
    if negb (Dict.contains uuid (pools st))
    then Dict.setitem uuid (PoolEntry (v_pool_name v) 0 0 ∅) (pools st)
    else pools st in
  pools1 ← update_item (add_time (v_time v)) uuid pools0;
  pools2 ← update_item incr_count uuid pools1;
  pools3 ← update_item (add_user (v_name v)) uuid pools2;
  Some (AggState pools3
                 (total_time st + v_time v)
                 (total_count st + 1)
                 (unique_users st ∪ {[v_name v]})).

Definition aggregate_checked (orig : list usage_record) : option agg_state :=
  fold_left (λ acc v, st ← acc; loop_body_checked st v) orig
            (Some initial_state).

(** ** Merging the aggregates of two batches *)

Definition merge_entry (e1 e2 : pool_entry (gset string)) :
    pool_entry (gset string) :=
  PoolEntry (p_name e1) (p_time e1 + p_time e2) (p_count e1 + p_count e2)
            (p_users e1 ∪ p_users e2).

Definition merge_entries (o1 o2 : option (pool_entry (gset string))) :
    option (pool_entry (gset string)) :=
  match o1, o2 with
  | Some e1, Some e2 => Some (merge_entry e1 e2)
  | Some e1, None => Some e1
  | None, _ => o2
  end.

(** ** What the PDF renderer hands over when no duration overflows *)

(** [timedelta(seconds=n)] is within the range of [timedelta]. *)
Definition representable (n : Z) : bool :=
  negb (Z.abs (n / 86400) >? MAX_DELTA_DAYS).

(** The text of a representable duration of [n] seconds. *)
Definition duration_text (n : Z) : string :=
  timedelta_str (TimeDelta (n / 86400) (n mod 86400) 0).

Definition pdf_row_of (p : pool_entry Z) : pdf_row :=
  PdfRow (p_name p) (duration_text (p_time p)) (p_count p) (p_users p)
         (duration_text (p_time p / p_count p)).

(** Every duration that [generate] formats is representable. *)
Definition all_representable (orig : list usage_record) : bool :=
  let '(ps, ttime, tcount, _) := processed_data orig in
  representable ttime && representable (ttime / tcount) &&
  forallb (λ p, representable (p_time p) &&
                representable (p_time p / p_count p)) ps.

Definition pdf_payload (gettext : string -> string)
    (start_date end_date : string) (orig : list usage_record) : pdf_call :=
  let '(ps, ttime, tcount, tusers) := processed_data orig in
  PdfCall "uds/reports/stats/pools-usage-summary.html"
    (PdfDct (map pdf_row_of ps) (duration_text ttime) tcount tusers
            (duration_text (ttime / tcount)) start_date end_date)
    (gettext "Summary of Pools usage" +:+ " " +:+ start_date +:+ " "
       +:+ gettext "to" +:+ " " +:+ end_date)
    (gettext "UDS Report Summary of pools usage").

(** ** Facts about ordered dictionaries *)

Section DictFacts.
Context {V : Type}.
Implicit Types (d : Dict.t V) (k : string) (x : V) (f : V -> V).

Lemma dict_contains_get k d :
  Dict.contains k d = bool_decide (is_Some (Dict.get k d)).
Proof.
  induction d as [|[k' x] d IH]; simpl; [done|].
  destruct (String.eqb k k'); [done | exact IH].
Qed.

Lemma dict_contains_keys k d :
  Dict.contains k d = true ↔ k ∈ Dict.keys d.
Proof.
  induction d as [|[k' x] d IH]; simpl.
  - split; [discriminate | by intros ?%elem_of_nil].
  - rewrite elem_of_cons. destruct (String.eqb_spec k k') as [->|Hne].
    + split; auto.
    + rewrite IH. split; [by right | by intros [?|?]].
Qed.

Lemma dict_get_None_keys k d : Dict.get k d = None ↔ k ∉ Dict.keys d.
Proof.
  rewrite <- dict_contains_keys, dict_contains_get.
  rewrite bool_decide_eq_true, <- eq_None_not_Some. done.
Qed.

Lemma dict_setitem_fresh k x d :
  Dict.contains k d = false → Dict.setitem k x d = d ++ [(k, x)].
Proof.
  induction d as [|[k' x'] d IH]; simpl; [done|].
  destruct (String.eqb k k'); [discriminate|].
  intros H. by rewrite IH.
Qed.

Lemma dict_alter_compose f g k d :
  Dict.alter f k (Dict.alter g k d) = Dict.alter (f ∘ g) k d.
Proof.
  induction d as [|[k' x'] d IH]; simpl; [done|].
  destruct (String.eqb k k') eqn:E; simpl; rewrite E; [done|].
  by rewrite IH.
Qed.

Lemma dict_alter_snoc_fresh f k x d :
  Dict.contains k d = false →
  Dict.alter f k (d ++ [(k, x)]) = d ++ [(k, f x)].
Proof.
  induction d as [|[k' x'] d IH]; simpl.
  - by rewrite String.eqb_refl.
  - destruct (String.eqb k k'); [discriminate|].
    intros H. by rewrite IH.
Qed.

Lemma dict_keys_alter f k d : Dict.keys (Dict.alter f k d) = Dict.keys d.
Proof.
  induction d as [|[k' x'] d IH]; simpl; [done|].
  destruct (String.eqb k k'); simpl; [done|].
  f_equal. exact IH.
Qed.

Lemma dict_get_alter f k k' d :
  Dict.get k' (Dict.alter f k d) =
  if decide (k = k') then f <$> Dict.get k' d else Dict.get k' d.
Proof.
  destruct (decide (k = k')) as [<-|Hk].
  - induction d as [|[k0 x0] d IH]; simpl; [done|].
    destruct (String.eqb k k0) eqn:E; simpl; rewrite E; [done | exact IH].
  - induction d as [|[k0 x0] d IH]; simpl; [done|].
    destruct (String.eqb_spec k k0) as [->|Hne]; simpl.
    + by destruct (String.eqb_spec k' k0); [congruence|].
    + by rewrite IH.
Qed.

Lemma dict_get_snoc k k' x d :
  Dict.get k' (d ++ [(k, x)]) =
  match Dict.get k' d with
  | Some y => Some y
  | None => if decide (k = k') then Some x else None
  end.
Proof.
  induction d as [|[k0 x0] d IH]; simpl.
  - destruct (String.eqb_spec k' k); case_decide; congruence.
  - destruct (String.eqb k' k0); [done | exact IH].
Qed.

Lemma dict_elem_of_get k x d :
  NoDup (Dict.keys d) → (k, x) ∈ d ↔ Dict.get k d = Some x.
Proof.
  induction d as [|[k0 x0] d IH]; simpl.
  - intros _. split; [by intros ?%elem_of_nil | discriminate].
  - intros [Hnotin Hnd]%NoDup_cons. rewrite elem_of_cons.
    destruct (String.eqb_spec k k0) as [->|Hne].
    + split.
      * intros [[= ->]|Hin]; [done|].
        exfalso. apply Hnotin. unfold Dict.keys.
        apply list_elem_of_fmap. by exists (k0, x).
      * intros [= ->]. by left.
    + rewrite <- (IH Hnd). split; [|by right].
      intros [[= -> ->]|Hin]; [done | exact Hin].
Qed.
End DictFacts.

(** ** The loop of [processed_data] *)


Lemma aggregate_snoc orig v :
  aggregate (orig ++ [v]) = loop_body (aggregate orig) v.
Proof. unfold aggregate. by rewrite fold_left_app. Qed.

Lemma loop_body_pools st v :
  pools (loop_body st v) =
  if Dict.contains (v_pool v) (pools st)
  then Dict.alter (touch v) (v_pool v) (pools st)
  else pools st ++ [(v_pool v, touch v (PoolEntry (v_pool_name v) 0 0 ∅))].
Proof.
  unfold loop_body; simpl.
  destruct (Dict.contains (v_pool v) (pools st)) eqn:E; simpl.
  - by rewrite !dict_alter_compose.
  - rewrite (dict_setitem_fresh _ _ _ E).
    by rewrite !(dict_alter_snoc_fresh _ _ _ _ E).
Qed.

Lemma sum_Z_app l1 l2 : sum_Z (l1 ++ l2) = sum_Z l1 + sum_Z l2.
Proof.
  unfold sum_Z. induction l1 as [|a l1 IH]; simpl; [done|].
  rewrite IH. lia.
Qed.

Lemma records_of_snoc k orig v :
  records_of k (orig ++ [v]) =
  records_of k orig ++ (if decide (v_pool v = k) then [v] else []).
Proof.
  unfold records_of. by rewrite filter_app.
Qed.

Lemma entry_of_snoc k orig v :
  entry_of k (orig ++ [v]) =
  if decide (v_pool v = k) then
    Some (touch v (default (PoolEntry (v_pool_name v) 0 0 ∅) (entry_of k orig)))
  else entry_of k orig.
Proof.
  unfold entry_of. rewrite records_of_snoc.
  case_decide as Hk; [|by rewrite app_nil_r].
  destruct (records_of k orig) as [|v0 rest]; simpl.
  - unfold touch, add_user, incr_count, add_time; simpl.
    f_equal. f_equal; first [lia | set_solver].
  - unfold touch, add_user, incr_count, add_time; simpl.
    rewrite !map_app, sum_Z_app, length_app, list_to_set_app_L; simpl.
    f_equal. f_equal; try lia.
    by rewrite (right_id_L ∅ (∪)), (assoc_L (∪)).
Qed.

(** The dictionary holds, under every key, exactly what [entry_of] reads
    off the records. *)
Lemma get_aggregate k orig :
  Dict.get k (pools (aggregate orig)) = entry_of k orig.
Proof.
  induction orig as [|v orig IH] using rev_ind; [done|].
  rewrite aggregate_snoc, loop_body_pools, entry_of_snoc.
  rewrite dict_contains_get.
  destruct (decide (v_pool v = k)) as [<-|Hne].
  - rewrite <- IH.
    destruct (Dict.get (v_pool v) (pools (aggregate orig))) as [p|] eqn:E.
    + rewrite bool_decide_eq_true_2 by eauto.
      rewrite dict_get_alter, decide_True by done. by rewrite E.
    + rewrite bool_decide_eq_false_2 by (by intros [? ?]).
      rewrite dict_get_snoc, E, decide_True by done. done.
  - case_bool_decide.
    + by rewrite dict_get_alter, decide_False.
    + rewrite dict_get_snoc, decide_False by done.
      rewrite IH. by destruct (entry_of k orig).
Qed.

Lemma first_seen_snoc l k :
  first_seen (l ++ [k]) =
  if decide (k ∈ l) then first_seen l else first_seen l ++ [k].
Proof.
  induction l as [|a l IH]; simpl; [done|].
  rewrite IH. destruct (decide (k ∈ l)) as [Hin|Hnin].
  - rewrite decide_True; [done | by right].
  - rewrite filter_app, filter_cons, filter_nil.
    destruct (decide (k ∈ a :: l)) as [[->|Hin]%elem_of_cons|Hnin'].
    + rewrite decide_False by auto. by rewrite app_nil_r.
    + done.
    + rewrite decide_True; [done|].
      intros ->. apply Hnin'. apply elem_of_cons. by left.
Qed.

Lemma elem_of_first_seen l k : k ∈ first_seen l ↔ k ∈ l.
Proof.
  induction l as [|a l IH]; simpl; [done|].
  rewrite !elem_of_cons, list_elem_of_filter, IH.
  destruct (decide (k = a)); tauto.
Qed.

Lemma NoDup_first_seen l : NoDup (first_seen l).
Proof.
  induction l as [|a l IH]; simpl; [constructor|].
  apply NoDup_cons. split.
  - rewrite list_elem_of_filter. tauto.
  - by apply NoDup_filter.
Qed.

Lemma keys_aggregate orig :
  Dict.keys (pools (aggregate orig)) = first_seen (map v_pool orig).
Proof.
  induction orig as [|v orig IH] using rev_ind; [done|].
  rewrite aggregate_snoc, loop_body_pools, map_app; simpl.
  rewrite first_seen_snoc, <- IH.
  destruct (Dict.contains (v_pool v) (pools (aggregate orig))) eqn:E.
  - rewrite dict_keys_alter.
    apply dict_contains_keys in E. rewrite IH, elem_of_first_seen in E.
    by rewrite decide_True.
  - rewrite decide_False.
    + unfold Dict.keys. by rewrite map_app.
    + rewrite <- elem_of_first_seen, <- IH, <- dict_contains_keys.
      by rewrite E.
Qed.

Lemma NoDup_keys_aggregate orig : NoDup (Dict.keys (pools (aggregate orig))).
Proof. rewrite keys_aggregate. apply NoDup_first_seen. Qed.

Lemma totals_aggregate orig :
  total_time (aggregate orig) = sum_Z (map v_time orig) ∧
  total_count (aggregate orig) = Z.of_nat (length orig) ∧
  unique_users (aggregate orig) = list_to_set (map v_name orig).
Proof.
  induction orig as [|v orig (IHt & IHc & IHu)] using rev_ind; [done|].
  rewrite aggregate_snoc, !map_app, sum_Z_app, length_app; simpl.
  rewrite IHt, IHc, IHu, list_to_set_app_L; simpl.
  rewrite (right_id_L ∅ (∪)). repeat split; lia.
Qed.

(** *** Sums over the values of the dictionary *)

Section DictSums.
Context {V : Type} (g : V -> Z).

Lemma sum_values_snoc d k x :
  sum_values g (d ++ [(k, x)]) = sum_values g d + g x.
Proof.
  unfold sum_values, Dict.values.
  rewrite !map_app, sum_Z_app; simpl. lia.
Qed.

Lemma sum_values_alter f k d t :
  (∀ x, g (f x) = g x + t) →
  Dict.contains k d = true →
  sum_values g (Dict.alter f k d) = sum_values g d + t.
Proof.
  intros Hf. unfold sum_values.
  induction d as [|[k' x] d IH]; simpl; [discriminate|].
  destruct (String.eqb k k'); simpl.
  - intros _. rewrite Hf. lia.
  - intros H. rewrite (IH H). lia.
Qed.
End DictSums.

Lemma sums_aggregate orig :
  sum_values p_time (pools (aggregate orig)) = total_time (aggregate orig) ∧
  sum_values p_count (pools (aggregate orig)) = total_count (aggregate orig).
Proof.
  induction orig as [|v orig [IHt IHc]] using rev_ind; [done|].
  rewrite aggregate_snoc, loop_body_pools.
  destruct (Dict.contains (v_pool v) (pools (aggregate orig))) eqn:E.
  - rewrite (sum_values_alter p_time _ _ _ (v_time v)) by done.
    rewrite (sum_values_alter p_count _ _ _ 1) by done.
    simpl. by rewrite IHt, IHc.
  - rewrite !sum_values_snoc; simpl. rewrite IHt, IHc. lia.
Qed.

(** *** Finalisation *)

Lemma keys_finalize d : Dict.keys (finalize d) = Dict.keys d.
Proof. unfold Dict.keys, finalize. rewrite map_map. done. Qed.

Lemma values_finalize d :
  Dict.values (finalize d) = map collapse_users (Dict.values d).
Proof. unfold Dict.values, finalize. by rewrite !map_map. Qed.

Lemma get_finalize k d :
  Dict.get k (finalize d) = collapse_users <$> Dict.get k d.
Proof.
  induction d as [|[k' x] d IH]; simpl; [done|].
  by destruct (String.eqb k k').
Qed.

Lemma sum_values_finalize (g : pool_entry Z -> Z) d :
  sum_values g (finalize d) = sum_values (g ∘ collapse_users) d.
Proof. unfold sum_values. by rewrite values_finalize, map_map. Qed.

Lemma get_final_pools k orig :
  Dict.get k (final_pools orig) = collapse_users <$> entry_of k orig.
Proof. unfold final_pools. by rewrite get_finalize, get_aggregate. Qed.

Lemma keys_final_pools orig :
  Dict.keys (final_pools orig) = first_seen (map v_pool orig).
Proof. unfold final_pools. by rewrite keys_finalize, keys_aggregate. Qed.

(** Every returned aggregate sits under some key, and its content is the
    one read off the records of that key. *)
Lemma elem_of_values_final_pools p orig :
  p ∈ Dict.values (final_pools orig) →
  ∃ k e, entry_of k orig = Some e ∧ p = collapse_users e.
Proof.
  unfold Dict.values. intros [[k p'] [-> Hin]]%list_elem_of_fmap; simpl.
  apply dict_elem_of_get in Hin.
  - rewrite get_final_pools in Hin.
    destruct (entry_of k orig) as [e|] eqn:E; [|discriminate].
    exists k, e. split; [done|]. simpl in Hin. congruence.
  - rewrite keys_final_pools. apply NoDup_first_seen.
Qed.

Lemma size_list_to_set_le (l : list string) :
  (size (list_to_set (C:=gset string) l) ≤ length l)%nat.
Proof.
  induction l as [|a l IH]; [done|]; simpl.
  rewrite size_union_alt, size_singleton.
  pose proof (subseteq_size (list_to_set (C:=gset string) l ∖ {[a]})
                (list_to_set l)) as Hle.
  specialize (Hle (subseteq_difference_l _ _ _ (reflexivity _))). lia.
Qed.

(** The figures of an entry read off the records. *)
Lemma entry_of_Some k orig e :
  entry_of k orig = Some e →
  records_of k orig ≠ [] ∧
  p_name e = default EmptyString (v_pool_name <$> head (records_of k orig)) ∧
  p_time e = sum_Z (map v_time (records_of k orig)) ∧
  p_count e = Z.of_nat (length (records_of k orig)) ∧
  p_users e = list_to_set (map v_name (records_of k orig)).
Proof.
  unfold entry_of. destruct (records_of k orig) as [|v rest]; [discriminate|].
  intros [= <-]. simpl. done.
Qed.

Lemma or_one_pos n : 0 < n → or_one n = n.
Proof. unfold or_one. intros H. destruct (Z.eqb_spec n 0); [lia | done]. Qed.

Lemma final_pools_bounds orig :
  Forall (λ p : pool_entry Z, 1 ≤ p_count p ∧ p_users p ≤ p_count p)
         (Dict.values (final_pools orig)).
Proof.
  apply Forall_forall. intros p (k & e & He & ->)%elem_of_values_final_pools.
  apply entry_of_Some in He as (Hne & _ & _ & Hc & Hu). simpl.
  rewrite Hc, Hu. pose proof (size_list_to_set_le (map v_name (records_of k orig))).
  rewrite length_map in *.
  destruct (records_of k orig); [done|]. simpl in *. lia.
Qed.

(** ** The aggregation contract *)

(** C1: for every non-empty sequence of usage records, the [total_time]
    returned by [processed_data] is the sum of the [time] fields of all
    records and the returned [total_count] is the number of records. *)
Theorem processed_data_totals orig :
  orig ≠ [] →
  let '(_, ttime, tcount, _) := processed_data orig in
  ttime = sum_Z (map v_time orig) ∧ tcount = Z.of_nat (length orig).
Proof.
  intros Hne. unfold processed_data.
  destruct (totals_aggregate orig) as (-> & -> & _).
  split; [done|]. apply or_one_pos.
  destruct orig; [done | simpl; lia].
Qed.

Lemma processed_data_totals_witness :
  example_records ≠ [] ∧
  let '(_, ttime, tcount, _) := processed_data example_records in
  ttime = sum_Z (map v_time example_records) ∧
  tcount = Z.of_nat (length example_records).
Proof.
  split; [discriminate|].
  apply (processed_data_totals example_records). discriminate.
Defined.

(** C2: on the empty sequence [processed_data] returns an empty pool
    collection, [total_time] 0, [total_count] 1 and [unique_users] 0. *)
Theorem processed_data_empty : processed_data [] = ([], 0, 1, 0).
Proof. reflexivity. Qed.

(** C3: the per-pool [time] values add up to the global [total_time], the
    per-pool [count] values add up to the [total_count] accumulated by the
    loop (the number of records, before [or 1]), and every record is counted
    in exactly one aggregate: keys are pairwise distinct, the pool of every
    record has an aggregate, and the aggregate under a key sums and counts
    exactly the records bearing that key. *)
Theorem pool_sums_match_totals orig :
  let '(ps, ttime, tcount, _) := processed_data orig in
  ps = Dict.values (final_pools orig) ∧
  sum_Z (map p_time ps) = ttime ∧
  sum_Z (map p_count ps) = total_count (aggregate orig) ∧
  total_count (aggregate orig) = Z.of_nat (length orig) ∧
  tcount = or_one (total_count (aggregate orig)) ∧
  NoDup (Dict.keys (final_pools orig)) ∧
  Forall (λ v, is_Some (Dict.get (v_pool v) (final_pools orig))) orig ∧
  Forall (λ kp,
            Dict.get (fst kp) (final_pools orig) = Some (snd kp) ∧
            p_time (snd kp) = sum_Z (map v_time (records_of (fst kp) orig)) ∧
            p_count (snd kp) = Z.of_nat (length (records_of (fst kp) orig)))
         (final_pools orig).
Proof.
  unfold processed_data.
  pose proof (keys_final_pools orig) as Hkeys.
  pose proof (NoDup_first_seen (map v_pool orig)) as Hnd.
  rewrite <- Hkeys in Hnd.
  destruct (sums_aggregate orig) as [Ht Hc].
  destruct (totals_aggregate orig) as (_ & Hlen & _).
  repeat split; try done.
  - unfold final_pools.
    change (sum_values p_time (finalize (pools (aggregate orig)))
            = total_time (aggregate orig)).
    by rewrite sum_values_finalize.
  - unfold final_pools.
    change (sum_values p_count (finalize (pools (aggregate orig)))
            = total_count (aggregate orig)).
    by rewrite sum_values_finalize.
  - apply Forall_forall. intros v Hv.
    apply not_eq_None_Some. rewrite dict_get_None_keys, Hkeys.
    intros Hnot. apply Hnot, elem_of_first_seen, list_elem_of_fmap.
    by exists v.
  - apply Forall_forall. intros [k p] Hin; simpl.
    apply (dict_elem_of_get _ _ _ Hnd) in Hin. split; [done|].
    rewrite get_final_pools in Hin.
    destruct (entry_of k orig) as [e|] eqn:E; [|discriminate].
    apply entry_of_Some in E as (_ & _ & Ht' & Hc' & _).
    simpl in Hin. injection Hin as <-. simpl. done.
Qed.

Lemma records_of_app k l1 l2 :
  records_of k (l1 ++ l2) = records_of k l1 ++ records_of k l2.
Proof. unfold records_of. apply filter_app. Qed.

Lemma records_of_none k l :
  Forall (λ v, v_pool v ≠ k) l → records_of k l = [].
Proof.
  unfold records_of. induction 1 as [|v l Hv _ IH]; [done|].
  rewrite filter_cons, decide_False by done. exact IH.
Qed.

(** C4: the [name] of a pool's aggregate is the [pool_name] of the first
    record bearing its pool id: whenever [orig] splits into records of other
    pools, then [v0], then anything (later records of the same pool may carry
    another [pool_name]), the aggregate under [v0]'s pool id exists, is part
    of the returned collection and is named after [v0]. *)
Theorem pool_name_first_seen pre v0 post :
  Forall (λ v, v_pool v ≠ v_pool v0) pre →
  ∃ p,
    Dict.get (v_pool v0) (final_pools (pre ++ v0 :: post)) = Some p ∧
    p ∈ (processed_data (pre ++ v0 :: post)).1.1.1 ∧
    p_name p = v_pool_name v0.
Proof.
  intros Hpre. set (orig := pre ++ v0 :: post).
  assert (Hget : ∃ p, Dict.get (v_pool v0) (final_pools orig) = Some p
                      ∧ p_name p = v_pool_name v0).
  { rewrite get_final_pools. unfold entry_of, orig.
    rewrite records_of_app, (records_of_none _ _ Hpre); simpl.
    unfold records_of. rewrite filter_cons, decide_True by done.
    simpl. eauto. }
  destruct Hget as (p & Hget & Hname). exists p. repeat split; try done.
  unfold processed_data; simpl. unfold Dict.values.
  apply list_elem_of_fmap. exists (v_pool v0, p). split; [done|].
  apply dict_elem_of_get; [|done].
  rewrite keys_final_pools. apply NoDup_first_seen.
Qed.

Lemma pool_name_first_seen_witness :
  Forall (λ v, v_pool v ≠ "A"%string) [UsageRecord "B" "Pool B" "u1" 30] ∧
  ∃ p,
    Dict.get "A"
      (final_pools [UsageRecord "B" "Pool B" "u1" 30;
                    UsageRecord "A" "Pool A" "u1" 100;
                    UsageRecord "A" "Renamed" "u2" 50]) = Some p ∧
    p ∈ (processed_data [UsageRecord "B" "Pool B" "u1" 30;
                         UsageRecord "A" "Pool A" "u1" 100;
                         UsageRecord "A" "Renamed" "u2" 50]).1.1.1 ∧
    p_name p = "Pool A"%string.
Proof.
  assert (H : Forall (λ v, v_pool v ≠ "A"%string)
                [UsageRecord "B" "Pool B" "u1" 30]).
  { repeat constructor. simpl. discriminate. }
  split; [exact H|].
  exact (pool_name_first_seen [UsageRecord "B" "Pool B" "u1" 30]
           (UsageRecord "A" "Pool A" "u1" 100)
           [UsageRecord "A" "Renamed" "u2" 50] H).
Defined.


Lemma floordiv_nonzero a b : b ≠ 0 → floordiv a b = Return (a / b).
Proof. unfold floordiv. intros H. by destruct (Z.eqb_spec b 0). Qed.

Lemma csv_data_row_ok v : 1 ≤ p_count v → csv_data_row v = Return (csv_row_of v).
Proof.
  intros H. unfold csv_data_row. rewrite floordiv_nonzero by lia. done.
Qed.

Lemma write_data_rows_ok written report_data :
  Forall (λ v : pool_entry Z, 1 ≤ p_count v) report_data →
  write_data_rows written report_data =
  Return (written ++ map csv_row_of report_data).
Proof.
  intros H. revert written.
  induction H as [|v rest Hv _ IH]; intros written; simpl.
  - by rewrite app_nil_r.
  - rewrite (csv_data_row_ok _ Hv); simpl.
    change (write_data_rows (written ++ [csv_row_of v]) rest =
            Return (written ++ csv_row_of v :: map csv_row_of rest)).
    rewrite IH. by rewrite <- app_assoc.
Qed.

Lemma final_pools_count_pos orig :
  Forall (λ p : pool_entry Z, 1 ≤ p_count p) (Dict.values (final_pools orig)).
Proof.
  eapply Forall_impl; [apply final_pools_bounds|]. simpl. tauto.
Qed.

Lemma or_one_nonzero n : or_one n ≠ 0.
Proof. unfold or_one. destruct (Z.eqb_spec n 0); lia. Qed.

Lemma generate_csv_rows gettext orig :
  generate_csv gettext orig =
  let '(ps, ttime, tcount, tusers) := processed_data orig in
  Return (csv_header gettext :: map csv_row_of ps ++
          [[CStr (gettext "Total"); CInt ttime; CInt tcount; CInt tusers;
            CInt (ttime / tcount)]]).
Proof.
  unfold generate_csv, processed_data.
  rewrite (write_data_rows_ok _ _ (final_pools_count_pos orig)).
  cbn [mbind py_result_bind].
  rewrite (floordiv_nonzero _ _ (or_one_nonzero _)). done.
Qed.

(** C5: the returned pool collection is in order of first occurrence of the
    pool ids in the input (the values of the dictionary, whose keys are in
    first-seen order), and the CSV renderer writes, after the header, one row
    per pool in that same order and the totals row last. *)
Theorem pools_in_first_seen_order gettext orig :
  let '(ps, ttime, tcount, tusers) := processed_data orig in
  ps = Dict.values (final_pools orig) ∧
  Dict.keys (final_pools orig) = first_seen (map v_pool orig) ∧
  generate_csv gettext orig =
  Return (csv_header gettext :: map csv_row_of ps ++
          [[CStr (gettext "Total"); CInt ttime; CInt tcount; CInt tusers;
            CInt (ttime / tcount)]]).
Proof.
  pose proof (generate_csv_rows gettext orig) as Hcsv.
  pose proof (keys_final_pools orig) as Hkeys.
  unfold processed_data in *. done.
Qed.

(** C6: every returned pool aggregate has [users] at most [count], and the
    returned [unique_users] is at most the returned [total_count]. *)
Theorem unique_users_bounded orig :
  let '(ps, _, tcount, tusers) := processed_data orig in
  Forall (λ p, p_users p ≤ p_count p) ps ∧ tusers ≤ tcount.
Proof.
  unfold processed_data. split.
  - eapply Forall_impl; [apply final_pools_bounds|]. simpl. tauto.
  - destruct (totals_aggregate orig) as (_ & -> & ->).
    pose proof (size_list_to_set_le (map v_name orig)) as Hle.
    rewrite length_map in Hle. unfold or_one.
    destruct (Z.eqb_spec (Z.of_nat (length orig)) 0); lia.
Qed.



Lemma is_zero_division_bind {A B} (m : py_result A) (f : A -> py_result B) :
  is_zero_division m = false →
  (∀ a, m = Return a → is_zero_division (f a) = false) →
  is_zero_division (m ≫= f) = false.
Proof. destruct m as [a|e]; simpl; intros Hm Hf; [by apply Hf | done]. Qed.

Lemma duration_str_no_zero_division n :
  is_zero_division (duration_str n) = false.
Proof.
  unfold duration_str, timedelta_of_seconds.
  by destruct (Z.abs (n / 86400) >? MAX_DELTA_DAYS).
Qed.

Lemma pdf_data_row_no_zero_division p :
  1 ≤ p_count p → is_zero_division (pdf_data_row p) = false.
Proof.
  intros Hp. unfold pdf_data_row, pdf_mean_seconds.
  apply is_zero_division_bind; [apply duration_str_no_zero_division|].
  intros t _. rewrite floordiv_nonzero by lia. cbn [mbind py_result_bind].
  apply is_zero_division_bind; [apply duration_str_no_zero_division|].
  done.
Qed.

Lemma mapM_no_zero_division {A B} (f : A -> py_result B) l :
  Forall (λ a, is_zero_division (f a) = false) l →
  is_zero_division (mapM f l) = false.
Proof.
  induction 1 as [|a l Ha _ IH]; [done|]. simpl.
  apply is_zero_division_bind; [done|]. intros b _.
  apply is_zero_division_bind; [done|]. done.
Qed.

Lemma generate_no_zero_division gettext start_date end_date orig :
  is_zero_division (generate gettext start_date end_date orig) = false.
Proof.
  unfold generate, processed_data.
  apply is_zero_division_bind; [apply duration_str_no_zero_division|].
  intros t _. rewrite (floordiv_nonzero _ _ (or_one_nonzero _)).
  cbn [mbind py_result_bind].
  apply is_zero_division_bind; [apply duration_str_no_zero_division|].
  intros ms _. apply is_zero_division_bind; [|done].
  apply mapM_no_zero_division.
  eapply Forall_impl; [apply final_pools_count_pos|].
  apply pdf_data_row_no_zero_division.
Qed.

(** C7: every pool aggregate returned by [processed_data] has [count] at
    least 1, so [time // count] is defined for every pool in both renderers:
    neither [generate] raises [ZeroDivisionError]. *)
Theorem pool_count_at_least_one gettext start_date end_date orig :
  let '(ps, _, _, _) := processed_data orig in
  Forall (λ p, 1 ≤ p_count p ∧
               pdf_mean_seconds p = Return (p_time p / p_count p) ∧
               csv_data_row p = Return (csv_row_of p)) ps ∧
  is_zero_division (generate gettext start_date end_date orig) = false ∧
  is_zero_division (generate_csv gettext orig) = false.
Proof.
  pose proof (generate_no_zero_division gettext start_date end_date orig).
  pose proof (generate_csv_rows gettext orig) as Hcsv.
  unfold processed_data in *. repeat split; try done.
  - eapply Forall_impl; [apply final_pools_count_pos|]. simpl.
    intros p Hp. repeat split; [done | | by apply csv_data_row_ok].
    unfold pdf_mean_seconds. apply floordiv_nonzero. lia.
  - by rewrite Hcsv.
Qed.

(** C8: on the three-record example the aggregation yields pool A with time
    150, count 2, users 2, pool B with time 30, count 1, users 1, and the
    totals 180, 3 and 2; the PDF mean of pool A is [150 // 2 = 75] seconds,
    rendered as [0:01:15]. *)
Theorem example_aggregation gettext start_date end_date :
  processed_data example_records =
    ([PoolEntry "Pool A" 150 2 2; PoolEntry "Pool B" 30 1 1], 180, 3, 2) ∧
  pdf_mean_seconds (PoolEntry "Pool A" 150 2 2) = Return 75 ∧
  duration_str 75 = Return "0:01:15"%string ∧
  d_data ∘ c_dct <$> generate gettext start_date end_date example_records =
    Return [PdfRow "Pool A" "0:02:30" 2 2 "0:01:15";
            PdfRow "Pool B" "0:00:30" 1 1 "0:00:30"].
Proof. repeat split; vm_compute; reflexivity. Qed.


Lemma figures_final_pools k orig :
  figures <$> Dict.get k (final_pools orig) =
  figures_of_records (records_of k orig).
Proof.
  rewrite get_final_pools. unfold entry_of.
  by destruct (records_of k orig).
Qed.

Lemma sum_Z_Permutation l1 l2 : l1 ≡ₚ l2 → sum_Z l1 = sum_Z l2.
Proof.
  unfold sum_Z. induction 1; simpl; lia.
Qed.

Lemma figures_of_records_Permutation rs1 rs2 :
  rs1 ≡ₚ rs2 → figures_of_records rs1 = figures_of_records rs2.
Proof.
  intros H. destruct rs1 as [|v1 rs1].
  - by apply Permutation_nil in H as ->.
  - destruct rs2 as [|v2 rs2].
    + symmetry in H. by apply Permutation_nil in H.
    + unfold figures_of_records.
      rewrite (sum_Z_Permutation _ _ (Permutation_map v_time H)).
      rewrite (Permutation_length H).
      rewrite (list_to_set_perm_L _ _ (Permutation_map v_name H)).
      done.
Qed.

Lemma omap_ext_elem {A B} (f g : A -> option B) (l : list A) :
  Forall (λ a, f a = g a) l → omap f l = omap g l.
Proof.
  induction 1 as [|a l Ha _ IH]; [done|].
  cbn [omap list_omap]. rewrite Ha. fold (omap f l) (omap g l).
  by rewrite IH.
Qed.

(** The values of a dictionary are what its keys look up, in key order. *)
Lemma dict_values_omap_keys {V W} (h : V -> W) (d : Dict.t V) :
  NoDup (Dict.keys d) →
  map h (Dict.values d) = omap (λ k, h <$> Dict.get k d) (Dict.keys d).
Proof.
  induction d as [|[k0 x0] d IH]; simpl; [done|].
  intros [Hnotin Hnd]%NoDup_cons. rewrite String.eqb_refl; simpl.
  f_equal. rewrite (IH Hnd). apply omap_ext_elem, Forall_forall.
  intros k Hk. destruct (String.eqb_spec k k0) as [->|Hne]; [done | done].
Qed.

Lemma figures_values_final_pools orig :
  map figures (Dict.values (final_pools orig)) =
  omap (λ k, figures_of_records (records_of k orig))
       (first_seen (map v_pool orig)).
Proof.
  rewrite dict_values_omap_keys, keys_final_pools.
  - apply omap_ext_elem, Forall_forall. intros k _.
    apply figures_final_pools.
  - rewrite keys_final_pools. apply NoDup_first_seen.
Qed.

Lemma first_seen_Permutation l1 l2 :
  l1 ≡ₚ l2 → first_seen l1 ≡ₚ first_seen l2.
Proof.
  intros H. apply NoDup_Permutation; try apply NoDup_first_seen.
  intros k. rewrite !elem_of_first_seen. by rewrite H.
Qed.

(** C9: for a permutation of the input the aggregation returns the same
    [total_time], [total_count] and [unique_users], and under every pool id
    the same [time], [count] and [users] (or no aggregate in both runs); the
    two returned collections hold the same figures up to order, so that only
    the names and the order can differ. *)
Theorem aggregation_permutation_invariant orig orig' :
  orig ≡ₚ orig' →
  let '(ps, ttime, tcount, tusers) := processed_data orig in
  let '(ps', ttime', tcount', tusers') := processed_data orig' in
  ttime = ttime' ∧ tcount = tcount' ∧ tusers = tusers' ∧
  map figures ps ≡ₚ map figures ps' ∧
  ∀ k, figures <$> Dict.get k (final_pools orig) =
       figures <$> Dict.get k (final_pools orig').
Proof.
  intros H. unfold processed_data.
  assert (Hfig : ∀ k, figures_of_records (records_of k orig) =
                      figures_of_records (records_of k orig')).
  { intros k. apply figures_of_records_Permutation.
    unfold records_of. by rewrite H. }
  destruct (totals_aggregate orig) as (-> & -> & ->).
  destruct (totals_aggregate orig') as (-> & -> & ->).
  repeat split.
  - exact (sum_Z_Permutation _ _ (Permutation_map v_time H)).
  - by rewrite (Permutation_length H).
  - by rewrite (list_to_set_perm_L _ _ (Permutation_map v_name H)).
  - rewrite !figures_values_final_pools.
    rewrite (first_seen_Permutation _ _ (Permutation_map v_pool H)).
    erewrite omap_ext_elem; [done|]. by apply Forall_forall.
  - intros k. by rewrite !figures_final_pools.
Qed.

Lemma aggregation_permutation_invariant_witness :
  example_records ≡ₚ rev example_records ∧
  let '(ps, ttime, tcount, tusers) := processed_data example_records in
  let '(ps', ttime', tcount', tusers') :=
    processed_data (rev example_records) in
  ttime = ttime' ∧ tcount = tcount' ∧ tusers = tusers' ∧
  map figures ps ≡ₚ map figures ps' ∧
  ∀ k, figures <$> Dict.get k (final_pools example_records) =
       figures <$> Dict.get k (final_pools (rev example_records)).
Proof.
  assert (H : example_records ≡ₚ rev example_records)
    by apply Permutation_rev.
  split; [exact H|].
  exact (aggregation_permutation_invariant example_records
           (rev example_records) H).
Defined.

Lemma timedelta_of_seconds_whole n td :
  timedelta_of_seconds n = Return td →
  whole_seconds td = n ∧ td_microseconds td = 0 ∧ 0 ≤ td_seconds td < 86400.
Proof.
  unfold timedelta_of_seconds.
  destruct (Z.abs (n / 86400) >? MAX_DELTA_DAYS); [discriminate|].
  intros [= <-]. unfold whole_seconds; simpl.
  pose proof (Z_div_mod_eq_full n 86400).
  pose proof (Z.mod_pos_bound n 86400). lia.
Qed.

Lemma generate_data gettext start_date end_date orig call :
  generate gettext start_date end_date orig = Return call →
  mapM pdf_data_row (processed_data orig).1.1.1 = Return (d_data (c_dct call)).
Proof.
  unfold generate, processed_data; simpl.
  destruct (duration_str _) as [t|]; simpl; [|discriminate].
  destruct (floordiv _ _) as [m|]; simpl; [|discriminate].
  destruct (duration_str m) as [ms|]; simpl; [|discriminate].
  destruct (mapM _ _) as [data|]; simpl; [|discriminate].
  by intros [= <-].
Qed.

(** C10: for every pool of the [processed_data] result, the mean cell of
    the CSV row and the seconds the PDF renderer passes to [timedelta] for
    the mean are the same integer [time // count]; when the duration can be
    represented, it holds exactly that many whole seconds and the PDF row
    shows its string.  The rows of both renderers are built from the same
    collection, in the same order. *)
Theorem csv_mean_matches_pdf_mean gettext start_date end_date orig :
  let '(ps, ttime, tcount, tusers) := processed_data orig in
  Forall (λ p, ∃ m,
      pdf_mean_seconds p = Return m ∧
      csv_data_row p =
        Return [CStr (p_name p); CInt (p_time p); CInt (p_count p);
                CInt (p_users p); CInt m] ∧
      (∀ row, pdf_data_row p = Return row →
         ∃ td, timedelta_of_seconds m = Return td ∧
               whole_seconds td = m ∧
               r_mean row = timedelta_str td)) ps ∧
  (∃ rows, mapM csv_data_row ps = Return rows ∧
     generate_csv gettext orig =
       Return (csv_header gettext :: rows ++
               [[CStr (gettext "Total"); CInt ttime; CInt tcount;
                 CInt tusers; CInt (ttime / tcount)]])) ∧
  (∀ call, generate gettext start_date end_date orig = Return call →
     mapM pdf_data_row ps = Return (d_data (c_dct call))).
Proof.
  pose proof (generate_csv_rows gettext orig) as Hcsv.
  pose proof (generate_data gettext start_date end_date orig) as Hpdf.
  pose proof (final_pools_count_pos orig) as Hpos.
  unfold processed_data in *. simpl in Hpdf. repeat split; [| |exact Hpdf].
  - eapply Forall_impl; [exact Hpos|]. simpl. intros p Hp.
    exists (p_time p / p_count p). repeat split.
    + unfold pdf_mean_seconds. apply floordiv_nonzero. lia.
    + by apply csv_data_row_ok.
    + intros row. unfold pdf_data_row, pdf_mean_seconds.
      rewrite floordiv_nonzero by lia.
      destruct (duration_str (p_time p)) as [t|]; simpl; [|discriminate].
      unfold duration_str.
      destruct (timedelta_of_seconds (p_time p / p_count p)) as [td|] eqn:E;
        simpl; [|discriminate].
      intros [= <-]. exists td. repeat split; simpl.
      by apply timedelta_of_seconds_whole in E as [? _].
  - exists (map csv_row_of (Dict.values (final_pools orig))). split; [|done].
    clear -Hpos. induction Hpos as [|p ps Hp _ IH]; [done|]. simpl.
    rewrite (csv_data_row_ok _ Hp); simpl. by rewrite IH.
Qed.

(** Order and names do depend on the input order. *)
Example order_is_first_seen_not_sorted :
  processed_data [UsageRecord "zz" "Zulu" "u1" 1;
                  UsageRecord "aa" "Alpha" "u1" 100] =
  ([PoolEntry "Zulu" 1 1 1; PoolEntry "Alpha" 100 1 1], 101, 2, 1).
Proof. vm_compute. reflexivity. Qed.

Example name_depends_on_order :
  processed_data [UsageRecord "A" "Old" "u1" 1; UsageRecord "A" "New" "u2" 2]
    = ([PoolEntry "Old" 3 2 2], 3, 2, 2) ∧
  processed_data [UsageRecord "A" "New" "u2" 2; UsageRecord "A" "Old" "u1" 1]
    = ([PoolEntry "New" 3 2 2], 3, 2, 2).
Proof. split; vm_compute; reflexivity. Qed.


(** ** Further properties of the aggregation *)

Lemma dict_get_setitem {V} k (y : V) (d : Dict.t V) :
  Dict.get k (Dict.setitem k y d) = Some y.
Proof.
  induction d as [|[k' x'] d IH]; simpl.
  - by rewrite String.eqb_refl.
  - destruct (String.eqb k k') eqn:E; simpl; rewrite E; [done | exact IH].
Qed.

Lemma update_item_present {V} (f : V -> V) k (d : Dict.t V) :
  Dict.contains k d = true → update_item f k d = Some (Dict.alter f k d).
Proof.
  unfold update_item. rewrite dict_contains_get.
  intros [x ->]%bool_decide_eq_true. done.
Qed.

Lemma dict_contains_alter {V} (f : V -> V) k k' (d : Dict.t V) :
  Dict.contains k' (Dict.alter f k d) = Dict.contains k' d.
Proof.
  induction d as [|[k0 x0] d IH]; simpl; [done|].
  destruct (String.eqb k k0); simpl; [done|]. by rewrite IH.
Qed.

Lemma dict_contains_setitem {V} k (x : V) (d : Dict.t V) :
  Dict.contains k (Dict.setitem k x d) = true.
Proof.
  rewrite dict_contains_get, dict_get_setitem.
  apply bool_decide_eq_true. by eexists.
Qed.

Lemma loop_body_checked_ok st v :
  loop_body_checked st v = Some (loop_body st v).
Proof.
  unfold loop_body_checked, loop_body.
  set (pools0 := if negb _ then _ else _).
  assert (H0 : Dict.contains (v_pool v) pools0 = true).
  { unfold pools0.
    destruct (Dict.contains (v_pool v) (pools st)) eqn:E; simpl; [done|].
    apply dict_contains_setitem. }
  rewrite (update_item_present _ _ _ H0); simpl.
  rewrite update_item_present by (by rewrite dict_contains_alter); simpl.
  rewrite update_item_present by (by rewrite !dict_contains_alter); simpl.
  done.
Qed.

(** X1: no lookup [pools[uuid]] of the loop misses its key: from any state
    the checked loop body returns the state of [loop_body], and the checked
    loop over any input returns the state of [aggregate]. *)
Theorem aggregate_no_key_error orig :
  (∀ st v, loop_body_checked st v = Some (loop_body st v)) ∧
  aggregate_checked orig = Some (aggregate orig).
Proof.
  split; [apply loop_body_checked_ok|].
  unfold aggregate_checked, aggregate. generalize initial_state.
  induction orig as [|v orig IH]; intros st; simpl; [done|].
  rewrite loop_body_checked_ok. apply IH.
Qed.

Lemma entry_of_app k l1 l2 :
  entry_of k (l1 ++ l2) = merge_entries (entry_of k l1) (entry_of k l2).
Proof.
  unfold entry_of. rewrite records_of_app.
  destruct (records_of k l1) as [|v1 r1]; [done|].
  destruct (records_of k l2) as [|v2 r2]; [by rewrite app_nil_r|].
  unfold merge_entries, merge_entry; cbn [p_name p_time p_count p_users].
  change ((v1 :: r1) ++ v2 :: r2) with (v1 :: (r1 ++ v2 :: r2)).
  f_equal. f_equal.
  - change (v1 :: r1 ++ v2 :: r2) with ((v1 :: r1) ++ v2 :: r2).
    by rewrite map_app, sum_Z_app.
  - change (v1 :: r1 ++ v2 :: r2) with ((v1 :: r1) ++ v2 :: r2).
    rewrite length_app. lia.
  - change (v1 :: r1 ++ v2 :: r2) with ((v1 :: r1) ++ v2 :: r2).
    by rewrite map_app, list_to_set_app_L.
Qed.

Lemma first_seen_app l1 l2 :
  first_seen (l1 ++ l2) = first_seen l1 ++ filter (λ k, k ∉ l1) (first_seen l2).
Proof.
  induction l1 as [|a l1 IH]; simpl.
  - symmetry. induction (first_seen l2) as [|k l IHl]; [done|].
    rewrite filter_cons, decide_True by apply not_elem_of_nil.
    by rewrite IHl.
  - f_equal. rewrite IH, filter_app. f_equal.
    rewrite list_filter_filter. apply list_filter_iff.
    intros k. rewrite elem_of_cons. tauto.
Qed.

(** X2: aggregating a concatenation merges the aggregates of the two
    parts: the totals add up, the global user sets are united, the entry
    under each pool id is the merge of the two entries (name of the first
    part when it has one, times and counts added, user sets united), and the
    pool ids of the first part come first, in their order, followed by the
    new ones of the second part. *)
Theorem aggregate_app l1 l2 :
  total_time (aggregate (l1 ++ l2)) =
    total_time (aggregate l1) + total_time (aggregate l2) ∧
  total_count (aggregate (l1 ++ l2)) =
    total_count (aggregate l1) + total_count (aggregate l2) ∧
  unique_users (aggregate (l1 ++ l2)) =
    unique_users (aggregate l1) ∪ unique_users (aggregate l2) ∧
  (∀ k, Dict.get k (pools (aggregate (l1 ++ l2))) =
        merge_entries (Dict.get k (pools (aggregate l1)))
                      (Dict.get k (pools (aggregate l2)))) ∧
  Dict.keys (pools (aggregate (l1 ++ l2))) =
    Dict.keys (pools (aggregate l1)) ++
    filter (λ k, k ∉ Dict.keys (pools (aggregate l1)))
           (Dict.keys (pools (aggregate l2))).
Proof.
  destruct (totals_aggregate (l1 ++ l2)) as (-> & -> & ->).
  destruct (totals_aggregate l1) as (-> & -> & ->).
  destruct (totals_aggregate l2) as (-> & -> & ->).
  rewrite !map_app, sum_Z_app, length_app, list_to_set_app_L.
  repeat split; try done; try lia.
  - intros k. rewrite !get_aggregate. apply entry_of_app.
  - rewrite !keys_aggregate, map_app, first_seen_app. f_equal.
    apply list_filter_iff. intros k. by rewrite elem_of_first_seen.
Qed.

Lemma length_first_seen (l : list string) :
  length (first_seen l) = size (list_to_set (C:=gset string) l).
Proof.
  rewrite <- (size_list_to_set (C:=gset string) (first_seen l))
    by apply NoDup_first_seen.
  f_equal. apply set_eq. intros k.
  by rewrite !elem_of_list_to_set, elem_of_first_seen.
Qed.

(** X3: [processed_data] returns one aggregate per distinct pool id of the
    input. *)
Theorem pool_per_distinct_id orig :
  length (processed_data orig).1.1.1 =
  size (list_to_set (C:=gset string) (map v_pool orig)).
Proof.
  unfold processed_data; simpl.
  rewrite <- length_first_seen, <- keys_final_pools.
  unfold Dict.values, Dict.keys. by rewrite !length_map.
Qed.

Lemma size_union_list_le (Xs : list (gset string)) :
  Z.of_nat (size (⋃ Xs)) ≤ sum_Z (map (λ X, Z.of_nat (size X)) Xs).
Proof.
  induction Xs as [|X Xs IH]; [done|].
  rewrite union_list_cons, size_union_alt. simpl.
  pose proof (subseteq_size (⋃ Xs ∖ X) (⋃ Xs)
                (subseteq_difference_l _ _ _ (reflexivity _))).
  unfold sum_Z in *. lia.
Qed.

Lemma entry_of_records_nonempty k orig :
  records_of k orig ≠ [] → is_Some (entry_of k orig).
Proof. unfold entry_of. by destruct (records_of k orig). Qed.

Lemma unique_users_covered orig :
  unique_users (aggregate orig) ⊆
  ⋃ (map p_users (Dict.values (pools (aggregate orig)))).
Proof.
  destruct (totals_aggregate orig) as (_ & _ & ->).
  intros u [v [-> Hv]]%elem_of_list_to_set%list_elem_of_fmap.
  assert (Hin : v ∈ records_of (v_pool v) orig).
  { unfold records_of. by apply list_elem_of_filter. }
  destruct (entry_of_records_nonempty (v_pool v) orig) as [e He].
  { intros Hnil. rewrite Hnil in Hin. by apply elem_of_nil in Hin. }
  apply elem_of_union_list. exists (p_users e). split.
  - apply list_elem_of_fmap. exists e. split; [done|].
    unfold Dict.values. apply list_elem_of_fmap. exists (v_pool v, e).
    split; [done|]. apply dict_elem_of_get; [apply NoDup_keys_aggregate|].
    by rewrite get_aggregate.
  - apply entry_of_Some in He as (_ & _ & _ & _ & ->).
    apply elem_of_list_to_set, list_elem_of_fmap. by exists v.
Qed.

(** X4: the returned [unique_users] is at least the [users] of every
    returned pool and at most the sum of the [users] of all pools. *)
Theorem unique_users_between orig :
  let '(ps, _, _, tusers) := processed_data orig in
  Forall (λ p, p_users p ≤ tusers) ps ∧ tusers ≤ sum_Z (map p_users ps).
Proof.
  unfold processed_data. split.
  - apply Forall_forall.
    intros p (k & e & He & ->)%elem_of_values_final_pools.
    apply entry_of_Some in He as (_ & _ & _ & _ & Hu). simpl. rewrite Hu.
    destruct (totals_aggregate orig) as (_ & _ & ->).
    apply inj_le, subseteq_size. intros u.
    rewrite !elem_of_list_to_set, !list_elem_of_fmap.
    intros (v & -> & Hv). exists v. split; [done|].
    unfold records_of in Hv. by apply list_elem_of_filter in Hv as [_ ?].
  - pose proof (subseteq_size _ _ (unique_users_covered orig)) as Hle.
    pose proof (size_union_list_le
                  (map p_users (Dict.values (pools (aggregate orig))))) as Hs.
    unfold final_pools. rewrite values_finalize, !map_map in *.
    simpl. lia.
Qed.


(** ** Further properties of the renderers *)

Lemma duration_str_cases n :
  duration_str n =
  if representable n then Return (duration_text n) else Raise OverflowError.
Proof.
  unfold duration_str, timedelta_of_seconds, representable, duration_text.
  by destruct (Z.abs (n / 86400) >? MAX_DELTA_DAYS).
Qed.

Lemma pdf_data_row_cases p :
  1 ≤ p_count p →
  pdf_data_row p =
  if representable (p_time p) && representable (p_time p / p_count p)
  then Return (pdf_row_of p) else Raise OverflowError.
Proof.
  intros Hp. unfold pdf_data_row, pdf_mean_seconds.
  rewrite floordiv_nonzero by lia. rewrite !duration_str_cases.
  destruct (representable (p_time p)); simpl; [|done].
  rewrite duration_str_cases.
  by destruct (representable (p_time p / p_count p)).
Qed.

Lemma mapM_pdf_data_row_cases ps :
  Forall (λ p : pool_entry Z, 1 ≤ p_count p) ps →
  mapM pdf_data_row ps =
  if forallb (λ p, representable (p_time p) &&
                   representable (p_time p / p_count p)) ps
  then Return (map pdf_row_of ps) else Raise OverflowError.
Proof.
  induction 1 as [|p ps Hp _ IH]; [done|].
  cbn [mapM forallb]. rewrite (pdf_data_row_cases _ Hp), IH.
  destruct (representable (p_time p) && _); simpl; [|done].
  by destruct (forallb _ ps).
Qed.

Lemma generate_cases gettext start_date end_date orig :
  generate gettext start_date end_date orig =
  if all_representable orig
  then Return (pdf_payload gettext start_date end_date orig)
  else Raise OverflowError.
Proof.
  unfold generate, all_representable, pdf_payload, processed_data.
  rewrite (floordiv_nonzero _ _ (or_one_nonzero _)).
  rewrite (mapM_pdf_data_row_cases _ (final_pools_count_pos orig)).
  rewrite duration_str_cases.
  destruct (representable (total_time _)); simpl; [|done].
  rewrite duration_str_cases.
  destruct (representable (_ / _)); simpl; [|done].
  by destruct (forallb _ _).
Qed.

(** X5: [generate] either hands [template_as_pdf] the payload built from
    the [processed_data] result (one row per pool, in order, with name,
    count and users unchanged and both durations as text; the totals; the
    header and watermark), or raises [OverflowError]; it raises exactly when
    one of the durations it formats is out of the range of [timedelta]. *)
Theorem generate_payload_or_overflow gettext start_date end_date orig :
  match generate gettext start_date end_date orig with
  | Return call =>
      all_representable orig = true ∧
      call = pdf_payload gettext start_date end_date orig
  | Raise e => all_representable orig = false ∧ e = OverflowError
  end.
Proof.
  rewrite generate_cases. by destruct (all_representable orig).
Qed.

Lemma sum_time_filter_le (P : usage_record -> Prop)
    `{!∀ v, Decision (P v)} (l : list usage_record) :
  Forall (λ v, 0 ≤ v_time v) l →
  0 ≤ sum_Z (map v_time (filter P l)) ≤ sum_Z (map v_time l).
Proof.
  unfold sum_Z. induction 1 as [|v l Hv _ IH]; simpl; [done|].
  rewrite filter_cons. destruct (decide (P v)); simpl; lia.
Qed.

Lemma sum_time_nonneg (l : list usage_record) :
  Forall (λ v, 0 ≤ v_time v) l → 0 ≤ sum_Z (map v_time l).
Proof. unfold sum_Z. induction 1; simpl; lia. Qed.

Lemma final_pools_ranges orig :
  Forall (λ v, 0 ≤ v_time v) orig →
  Forall (λ p : pool_entry Z,
            0 ≤ p_time p ≤ total_time (aggregate orig) ∧
            1 ≤ p_count p ≤ total_count (aggregate orig))
         (Dict.values (final_pools orig)).
Proof.
  intros Hpos. apply Forall_forall.
  intros p (k & e & He & ->)%elem_of_values_final_pools.
  apply entry_of_Some in He as (Hne & _ & Ht & Hc & _). simpl.
  destruct (totals_aggregate orig) as (-> & -> & _).
  rewrite Ht, Hc. split.
  - by apply sum_time_filter_le.
  - pose proof (length_filter (λ v, v_pool v = k) orig).
    unfold records_of in *.
    destruct (filter _ orig); [done|]. simpl in *. lia.
Qed.

Lemma representable_bound n :
  0 ≤ n < 86400 * (MAX_DELTA_DAYS + 1) → representable n = true.
Proof.
  intros [Hn Hb]. unfold representable.
  destruct (Z.gtb_spec (Z.abs (n / 86400)) MAX_DELTA_DAYS) as [H|H]; [|done].
  exfalso. rewrite Z.abs_eq in H by (apply Z.div_pos; lia).
  assert (n / 86400 < MAX_DELTA_DAYS + 1)
    by (apply Z.div_lt_upper_bound; lia).
  lia.
Qed.

Lemma div_between a b : 0 ≤ a → 1 ≤ b → 0 ≤ a / b ≤ a.
Proof.
  intros Ha Hb. split; [apply Z.div_pos; lia|].
  apply Z.div_le_upper_bound; nia.
Qed.

Lemma or_one_ge n : 0 ≤ n → 1 ≤ or_one n.
Proof. unfold or_one. intros H. destruct (Z.eqb_spec n 0); lia. Qed.

(** X6: when no record has a negative time and the total time stays below
    1000000000 days, [generate] does not raise: it hands over the payload
    built from the [processed_data] result. *)
Theorem generate_succeeds_in_range gettext start_date end_date orig :
  Forall (λ v, 0 ≤ v_time v) orig →
  sum_Z (map v_time orig) < 86400 * (MAX_DELTA_DAYS + 1) →
  generate gettext start_date end_date orig =
  Return (pdf_payload gettext start_date end_date orig).
Proof.
  intros Hpos Hb. rewrite generate_cases.
  assert (Hall : all_representable orig = true); [|by rewrite Hall].
  pose proof (final_pools_ranges orig Hpos) as Hps.
  pose proof (sum_time_nonneg orig Hpos) as H0.
  unfold all_representable, processed_data.
  destruct (totals_aggregate orig) as (Ht & Hc & _).
  rewrite Ht in *. 
  assert (Hone : 1 ≤ or_one (total_count (aggregate orig))).
  { apply or_one_ge. lia. }
  rewrite !andb_true_iff. repeat split.
  - apply representable_bound. lia.
  - pose proof (div_between _ _ H0 Hone). apply representable_bound. lia.
  - apply forallb_forall. intros p Hp%list_elem_of_In.
    rewrite Forall_forall in Hps. destruct (Hps p Hp) as [Htp Hcp].
    pose proof (div_between (p_time p) (p_count p)).
    rewrite andb_true_iff. split; apply representable_bound; lia.
Qed.

Lemma generate_succeeds_in_range_witness :
  Forall (λ v, 0 ≤ v_time v) example_records ∧
  sum_Z (map v_time example_records) < 86400 * (MAX_DELTA_DAYS + 1) ∧
  generate id "2024-01-01" "2024-01-31" example_records =
  Return (pdf_payload id "2024-01-01" "2024-01-31" example_records).
Proof.
  assert (H1 : Forall (λ v, 0 ≤ v_time v) example_records).
  { repeat constructor; simpl; lia. }
  assert (H2 : sum_Z (map v_time example_records)
               < 86400 * (MAX_DELTA_DAYS + 1)).
  { vm_compute. reflexivity. }
  split; [exact H1|]. split; [exact H2|].
  exact (generate_succeeds_in_range id "2024-01-01" "2024-01-31"
           example_records H1 H2).
Defined.

(** X7: when the total time has more than 999999999 days, [generate]
    raises [OverflowError], while the CSV renderer still writes its rows
    for the same input. *)
Theorem generate_overflow_csv_still_written gettext start_date end_date orig :
  MAX_DELTA_DAYS < Z.abs (sum_Z (map v_time orig) / 86400) →
  generate gettext start_date end_date orig = Raise OverflowError ∧
  ∃ rows, generate_csv gettext orig = Return rows.
Proof.
  intros Hbig. split.
  - rewrite generate_cases.
    assert (Hall : all_representable orig = false); [|by rewrite Hall].
    unfold all_representable, processed_data.
    destruct (totals_aggregate orig) as (-> & _ & _).
    assert (Hr : representable (sum_Z (map v_time orig)) = false).
    { unfold representable.
      destruct (Z.gtb_spec (Z.abs (sum_Z (map v_time orig) / 86400))
                  MAX_DELTA_DAYS); [done | lia]. }
    by rewrite Hr.
  - rewrite generate_csv_rows. unfold processed_data. eauto.
Qed.

Lemma generate_overflow_csv_still_written_witness :
  MAX_DELTA_DAYS <
    Z.abs (sum_Z (map v_time [UsageRecord "A" "Pool A" "u1"
                                (86400 * 1000000000)]) / 86400) ∧
  generate id "s" "e" [UsageRecord "A" "Pool A" "u1" (86400 * 1000000000)]
    = Raise OverflowError ∧
  ∃ rows,
    generate_csv id [UsageRecord "A" "Pool A" "u1" (86400 * 1000000000)]
      = Return rows.
Proof.
  assert (H : MAX_DELTA_DAYS <
    Z.abs (sum_Z (map v_time [UsageRecord "A" "Pool A" "u1"
                                (86400 * 1000000000)]) / 86400)).
  { vm_compute. reflexivity. }
  split; [exact H|].
  exact (generate_overflow_csv_still_written id "s" "e" _ H).
Defined.

(** X8: when no record has a negative time, the returned [total_time] is
    not negative, the time of every pool lies between 0 and [total_time],
    and every mean ([time // count], per pool and for the totals) lies
    between 0 and the time it is taken from. *)
Theorem nonnegative_times_bounds orig :
  Forall (λ v, 0 ≤ v_time v) orig →
  let '(ps, ttime, tcount, _) := processed_data orig in
  0 ≤ ttime ∧ 0 ≤ ttime / tcount ≤ ttime ∧
  Forall (λ p, 0 ≤ p_time p ≤ ttime ∧
               0 ≤ p_time p / p_count p ≤ p_time p) ps.
Proof.
  intros Hpos. unfold processed_data.
  pose proof (final_pools_ranges orig Hpos) as Hps.
  pose proof (sum_time_nonneg orig Hpos) as H0.
  destruct (totals_aggregate orig) as (Ht & Hc & _).
  rewrite <- Ht in H0.
  split; [done|]. split.
  - apply div_between; [done|]. apply or_one_ge. lia.
  - eapply Forall_impl; [exact Hps|]. simpl.
    intros p [Htp Hcp]. split; [done|]. apply div_between; lia.
Qed.

Lemma nonnegative_times_bounds_witness :
  Forall (λ v, 0 ≤ v_time v) example_records ∧
  let '(ps, ttime, tcount, _) := processed_data example_records in
  0 ≤ ttime ∧ 0 ≤ ttime / tcount ≤ ttime ∧
  Forall (λ p, 0 ≤ p_time p ≤ ttime ∧
               0 ≤ p_time p / p_count p ≤ p_time p) ps.
Proof.
  assert (H : Forall (λ v, 0 ≤ v_time v) example_records).
  { repeat constructor; simpl; lia. }
  split; [exact H|].
  exact (nonnegative_times_bounds example_records H).
Defined.

Lemma final_pools_count_le orig :
  Forall (λ p : pool_entry Z, 1 ≤ p_count p ≤ total_count (aggregate orig))
         (Dict.values (final_pools orig)).
Proof.
  apply Forall_forall.
  intros p (k & e & He & ->)%elem_of_values_final_pools.
  apply entry_of_Some in He as (Hne & _ & _ & Hc & _). simpl.
  destruct (totals_aggregate orig) as (_ & -> & _). rewrite Hc.
  pose proof (length_filter (λ v, v_pool v = k) orig).
  unfold records_of in *. destruct (filter _ orig); [done|]. simpl in *. lia.
Qed.

Lemma floor_bounds a b : 1 ≤ b → b * (a / b) ≤ a < b * (a / b + 1).
Proof.
  intros Hb. pose proof (Z.mul_div_le a b).
  pose proof (Z.mul_succ_div_gt a b). lia.
Qed.

(** X9: every mean the renderers compute is the floor of the true mean:
    for each returned pool, whose [count] lies between 1 and the returned
    [total_count], [count * (time // count) <= time < count * (time // count
    + 1)], and likewise for the totals; this holds for negative times too. *)
Theorem means_are_floors orig :
  let '(ps, ttime, tcount, _) := processed_data orig in
  Forall (λ p, ∃ m, csv_data_row p =
                      Return [CStr (p_name p); CInt (p_time p);
                              CInt (p_count p); CInt (p_users p); CInt m] ∧
                    1 ≤ p_count p ≤ tcount ∧
                    p_count p * m ≤ p_time p < p_count p * (m + 1)) ps ∧
  ∃ m, floordiv ttime tcount = Return m ∧
       tcount * m ≤ ttime < tcount * (m + 1).
Proof.
  unfold processed_data. split.
  - eapply Forall_impl; [apply final_pools_count_le|]. simpl.
    intros p [H1 Hle]. exists (p_time p / p_count p).
    split; [by apply csv_data_row_ok|]. split; [|by apply floor_bounds].
    split; [done|]. unfold or_one.
    destruct (Z.eqb_spec (total_count (aggregate orig)) 0); lia.
  - eexists. split; [apply floordiv_nonzero, or_one_nonzero|].
    apply floor_bounds, or_one_ge.
    destruct (totals_aggregate orig) as (_ & -> & _). lia.
Qed.

(** X10: the CSV renderer always returns; it writes the header first, then
    as many rows as there are pools, then the totals row, and every row it
    writes has five cells. *)
Theorem generate_csv_rectangular gettext orig :
  ∃ rows,
    generate_csv gettext orig = Return rows ∧
    Z.of_nat (length rows) =
      Z.of_nat (length (processed_data orig).1.1.1) + 2 ∧
    head rows = Some (csv_header gettext) ∧
    Forall (λ row, length row = 5%nat) rows.
Proof.
  rewrite generate_csv_rows. unfold processed_data. cbn [fst].
  eexists. split; [reflexivity|]. repeat split.
  - cbn [length]. rewrite length_app, length_map. cbn [length]. lia.
  - constructor; [done|]. apply Forall_app. split.
    + apply Forall_forall. by intros row (p & -> & _)%list_elem_of_fmap.
    + by repeat constructor.
Qed.

(** X11: with no usage rows both renderers still produce a report: the
    CSV holds the header and a totals row [0, 1, 0, 0], the PDF payload has
    no data row and shows zero durations, count 1 and 0 users. *)
Theorem empty_report gettext start_date end_date :
  generate_csv gettext [] =
    Return [csv_header gettext;
            [CStr (gettext "Total"); CInt 0; CInt 1; CInt 0; CInt 0]] ∧
  generate gettext start_date end_date [] =
    Return (PdfCall "uds/reports/stats/pools-usage-summary.html"
              (PdfDct [] "0:00:00" 1 0 "0:00:00" start_date end_date)
              (gettext "Summary of Pools usage" +:+ " " +:+ start_date
                 +:+ " " +:+ gettext "to" +:+ " " +:+ end_date)
              (gettext "UDS Report Summary of pools usage")).
Proof. split; reflexivity. Qed.

Lemma first_seen_constant k (l : list string) :
  Forall (λ k', k' = k) l → l ≠ [] → first_seen l = [k].
Proof.
  induction 1 as [|k' l -> Hl IH]; [done|]. intros _. simpl.
  destruct l as [|k'' l']; [done|].
  rewrite IH by done. rewrite filter_cons. by case_decide.
Qed.

Lemma records_of_all k orig :
  Forall (λ v, v_pool v = k) orig → records_of k orig = orig.
Proof.
  unfold records_of. induction 1 as [|v l Hv _ IH]; [done|].
  rewrite filter_cons, decide_True by done. by rewrite IH.
Qed.

(** X12: when all records bear the same pool id, the report has a single
    pool, named after the first record, whose time, count and users are the
    totals. *)
Theorem single_pool_equals_totals k v0 rest :
  Forall (λ v, v_pool v = k) (v0 :: rest) →
  let '(ps, ttime, tcount, tusers) := processed_data (v0 :: rest) in
  ps = [PoolEntry (v_pool_name v0) ttime tcount tusers].
Proof.
  intros Hall. set (orig := v0 :: rest) in *. unfold processed_data.
  assert (Hkeys : Dict.keys (final_pools orig) = [k]).
  { rewrite keys_final_pools. apply first_seen_constant.
    - apply Forall_fmap. exact Hall.
    - done. }
  pose proof (dict_values_omap_keys id (final_pools orig)) as Hv.
  rewrite Hkeys, map_id in Hv. rewrite Hv by apply NoDup_singleton.
  cbn [omap list_omap]. rewrite get_final_pools. unfold entry_of.
  rewrite (records_of_all _ _ Hall). unfold orig at 1. simpl.
  destruct (totals_aggregate orig) as (-> & -> & ->).
  unfold collapse_users; simpl. done.
Qed.

Lemma single_pool_equals_totals_witness :
  Forall (λ v, v_pool v = "A"%string)
    [UsageRecord "A" "Pool A" "u1" 100; UsageRecord "A" "Other" "u1" 20] ∧
  let '(ps, ttime, tcount, tusers) :=
    processed_data
      [UsageRecord "A" "Pool A" "u1" 100; UsageRecord "A" "Other" "u1" 20] in
  ps = [PoolEntry "Pool A" ttime tcount tusers].
Proof.
  assert (H : Forall (λ v, v_pool v = "A"%string)
    [UsageRecord "A" "Pool A" "u1" 100; UsageRecord "A" "Other" "u1" 20]).
  { repeat constructor. }
  split; [exact H|].
  exact (single_pool_equals_totals "A" (UsageRecord "A" "Pool A" "u1" 100)
           [UsageRecord "A" "Other" "u1" 20] H).
Defined.
